(** * Evaluation utilities of the dog-image GAN: a shallow embedding

    Source: [src/gan-dogs/model/evaluation.py].

    The module is orchestration code around TensorFlow, NumPy, Matplotlib,
    OpenCV and [os].  The embedding keeps the control flow of every function
    of the module and makes the library calls observable:

    - a call into a library appends an [Event] to the log of the run;
    - the global random generator of TensorFlow and the file system are the
      two components of the threaded [State];
    - a Python exception ends the run with [Raise], keeping the state and
      the log reached so far.

    Float tensors are modelled with exact rationals ([Q]); the claims below
    are about which operations are applied to which values, and the two
    range facts that are proved hold for the exact operations. *)

From Stdlib Require Import ZArith QArith Qround Qabs Lia Lqa Ascii String.
From stdpp Require Import base option list strings pretty gmap.

Close Scope Q_scope.


(** ** Tensors and arrays *)

(** A dense tensor: its shape and its entries in row-major order. *)
Record Tensor := mkTensor { shape : list nat; data : list Q }.

(** Number of entries of a tensor of the given shape. *)
Definition numel (shp : list nat) : nat := foldr Nat.mul 1 shp.

(** The Python values bound to [img] in [plot_imgs_grid] and [sample]:
    a TensorFlow eager tensor, or the NumPy array that [np.squeeze]
    returns.  Only the former has a [numpy] method. *)
Inductive Array :=
| EagerTensor (t : Tensor)
| NdArray (t : Tensor).

Definition array_tensor (a : Array) : Tensor :=
  match a with EagerTensor t | NdArray t => t end.

(** A [uint8] array, as handed to [cv2.imwrite]. *)
Record UInt8Array := mkUInt8 { u8_shape : list nat; u8_data : list Z }.

(** The exceptions the module can run into. *)
Inductive Exn :=
| IndexError
| InvalidArgumentError
| AttributeError
| KeyError (key : string)
| ValueError
| StopIteration.

Inductive Res (A : Type) :=
| Ok (a : A)
| Raise (e : Exn).
Arguments Ok {A} a.
Arguments Raise {A} e.

(** ** Library calls seen from outside *)

Inductive Event :=
| EvTruncatedNormal (shp : list nat)
| EvUniform (shp : list nat)
| EvGan (latent labels : Tensor) (training : bool)
| EvDiscriminator (img label : Tensor) (training : bool)
| EvPrint (msg : string) (value : option Tensor)
| EvSubplots (rows cols : nat) (figsize : nat * nat)
| EvTitle (s : string)
| EvImshow (ax : option nat) (img : Array) (cmap : option string)
| EvPlot (xs : list nat) (ys : list Q) (label : string)
| EvXlabel (s : string)
| EvYlabel (s : string)
| EvGrid (axis : string)
| EvLegend (loc : string)
| EvShow
| EvOsWalk (path : string)
| EvScaleImages (imgs : Tensor) (new_shape : list nat)
| EvCalculateFid (images1 images2 : Tensor)
| EvImwrite (file : string) (img : UInt8Array).

(** What lies outside the module: the random source behind
    [tf.random], the file system with [os.walk] and [cv2.imwrite],
    [tf.nn.sigmoid], and the two helpers imported from [.utils]. *)
Record Externals := mkExternals {
  FS : Type;
  normal_draw : nat → Q;
  uniform_draw : nat → Q;
  os_walk : FS → string → list (string * list string * list string);
  cv2_imwrite : string → UInt8Array → FS → FS;
  sigmoid : Tensor → Tensor;
  scale_images : Tensor → list nat → Tensor;
  calculate_fid : Tensor → Tensor → Q
}.

(** The GAN object: the two attributes the module reads and the two
    networks it calls. *)
Record GAN := mkGAN {
  latent_dim : nat;
  num_classes : Z;
  gan_forward : Tensor → Tensor → bool → Tensor;
  discriminator : Tensor → Tensor → bool → Tensor
}.

(** ** Pure helpers *)

(** [int(round(np.sqrt(n)))]: the integer nearest to the square root.
    With [r] the integer square root, [sqrt n < r + 1/2] exactly when
    [n <= r*r + r]; a tie cannot occur for an integer [n]. *)
Definition round_sqrt (n : nat) : nat :=
  let r := Nat.sqrt n in
  if (n - r * r <=? r)%nat then r else S r.

(** The [i]-th slice of [t] along its first axis, when there is one. *)
Definition slice (t : Tensor) (i : nat) : option Tensor :=
  match shape t with
  | d :: rest =>
      if i <? d then
        Some (mkTensor rest (take (numel rest) (drop (i * numel rest) (data t))))
      else None
  | [] => None
  end.

(** [(img + 1.) / 2.] on one entry, and on a tensor. *)
Definition normalize_px (x : Q) : Q := ((x + 1) / 2)%Q.

Definition normalize (t : Tensor) : Tensor :=
  mkTensor (shape t) (normalize_px <$> data t).

(** [c * t] for a scalar [c]. *)
Definition scalar_mul (c : Q) (t : Tensor) : Tensor :=
  mkTensor (shape t) (Qmult c <$> data t).

(** [tf.math.floor]. *)
Definition tf_floor (t : Tensor) : Tensor :=
  mkTensor (shape t) ((λ x, inject_Z (Qfloor x)) <$> data t).

(** [astype('uint8')] on one entry: the fractional part is dropped and
    the integer is reduced modulo 256. *)
Definition to_uint8 (x : Q) : Z :=
  ((Qnum x ÷ Zpos (Qden x)) `mod` 256)%Z.

Definition astype_uint8 (t : Tensor) : UInt8Array :=
  mkUInt8 (shape t) (to_uint8 <$> data t).

(** [np.squeeze(img, axis=-1)], used only when the last dimension is 1:
    the entries are kept, the last dimension is dropped, and the result
    is a NumPy array. *)
Definition np_squeeze_last (t : Tensor) : Array :=
  NdArray (mkTensor (removelast (shape t)) (data t)).

(** [os.path.join(a, b)] of [posixpath] for two components. *)
Fixpoint ends_with_sep (s : string) : bool :=
  match s with
  | EmptyString => false
  | String "/" EmptyString => true
  | String _ s' => ends_with_sep s'
  end.

Definition os_path_join (a b : string) : string :=
  match b with
  | String "/" _ => b
  | _ => if bool_decide (a = EmptyString) || ends_with_sep a then a +:+ b
         else a +:+ "/" +:+ b
  end.

(** Truth value of [path] in [if path:]. *)
Definition truthy (path : option string) : bool :=
  match path with
  | None => false
  | Some p => negb (bool_decide (p = EmptyString))
  end.

(** [str(n)] for a non-negative integer. *)
Definition str (n : nat) : string := pretty n.

Section Evaluation.
Context (X : Externals).

(** ** The monad of runs *)

Record State := mkState { rng : nat; fs : FS X }.

Definition M (A : Type) : Type := State → Res A * State * list Event.

#[global] Instance M_ret : MRet M := λ A a s, (Ok a, s, []).

#[global] Instance M_bind : MBind M := λ A B k m s,
  match m s with
  | (Ok a, s1, l1) => let '(r, s2, l2) := k a s1 in (r, s2, l1 ++ l2)
  | (Raise e, s1, l1) => (Raise e, s1, l1)
  end.

Definition raise {A} (e : Exn) : M A := λ s, (Raise e, s, []).

Definition emit (e : Event) : M unit := λ s, (Ok tt, s, [e]).

Definition result {A} (o : Res A * State * list Event) : Res A := o.1.1.
Definition final {A} (o : Res A * State * list Event) : State := o.1.2.
Definition events {A} (o : Res A * State * list Event) : list Event := o.2.

(** [for x in xs: body(x)]. *)
Fixpoint for_each {A} (xs : list A) (body : A → M unit) : M unit :=
  match xs with
  | [] => mret tt
  | x :: xs' => body x ;; for_each xs' body
  end.

(** [enumerate(xs)]. *)
Definition enumerate {A} (xs : list A) : list (nat * A) :=
  zip (seq 0 (length xs)) xs.

(** ** Library calls *)

(** [t.shape[0]]. *)
Definition shape0 (t : Tensor) : M nat :=
  match shape t with
  | d :: _ => mret d
  | [] => raise IndexError
  end.

(** [t.shape[-1]]. *)
Definition shape_last (t : Tensor) : M nat :=
  match last (shape t) with
  | Some d => mret d
  | None => raise IndexError
  end.

(** [t[i, ...]] on an eager tensor; out of range, TensorFlow raises. *)
Definition tensor_getitem (t : Tensor) (i : nat) : M Tensor :=
  match slice t i with
  | Some x => mret x
  | None => raise InvalidArgumentError
  end.

(** [t[:k, ...]]: the first [k] slices, fewer if there are not [k]. *)
Definition tensor_take (t : Tensor) (k : nat) : M Tensor :=
  match shape t with
  | d :: rest =>
      mret (mkTensor (k `min` d :: rest) (take ((k `min` d) * numel rest) (data t)))
  | [] => raise InvalidArgumentError
  end.

(** [img.numpy()]. *)
Definition numpy (a : Array) : M Tensor :=
  match a with
  | EagerTensor t => mret t
  | NdArray _ => raise AttributeError
  end.

(** [tf.random.truncated_normal(shape=shp)] and
    [tf.random.uniform(shp)]: a tensor of the requested shape filled
    with the next draws of the generator. *)
Definition drawn (draw : nat → Q) (shp : list nat) (from : nat) : Tensor :=
  mkTensor shp (draw <$> seq from (numel shp)).

Definition tf_random_truncated_normal (shp : list nat) : M Tensor := λ s,
  (Ok (drawn (normal_draw X) shp (rng s)),
   mkState (rng s + numel shp) (fs s),
   [EvTruncatedNormal shp]).

Definition tf_random_uniform (shp : list nat) : M Tensor := λ s,
  (Ok (drawn (uniform_draw X) shp (rng s)),
   mkState (rng s + numel shp) (fs s),
   [EvUniform shp]).

(** [gan(inputs, training=...)] and [gan.discriminator(...)]. *)
Definition call_gan (gan : GAN) (inputs : Tensor * Tensor) (training : bool)
  : M Tensor :=
  emit (EvGan inputs.1 inputs.2 training) ;;
  mret (gan_forward gan inputs.1 inputs.2 training).

Definition call_discriminator (gan : GAN) (img label : Tensor)
    (training : bool) : M Tensor :=
  emit (EvDiscriminator img label training) ;;
  mret (discriminator gan img label training).

(** [plt.subplots(rows, cols, figsize=...)] followed by
    [np.reshape(axes, (-1,))]: the axes of the grid in row-major
    order, numbered from 0.  Matplotlib rejects an empty grid. *)
Definition plt_subplots (rows cols : nat) (figsize : nat * nat)
  : M (list (list nat)) :=
  if (rows =? 0) || (cols =? 0) then raise ValueError
  else
    emit (EvSubplots rows cols figsize) ;;
    mret ((λ r, seq (r * cols) cols) <$> seq 0 rows).

Definition np_reshape_flat (axes : list (list nat)) : list nat :=
  concat axes.

(** [os.walk(path)], consumed at once by the list comprehension. *)
Definition walk (path : string)
  : M (list (string * list string * list string)) := λ s,
  (Ok (os_walk X (fs s) path), s, [EvOsWalk path]).

(** [cv2.imwrite(file, img)]. *)
Definition imwrite (file : string) (img : UInt8Array) : M unit := λ s,
  (Ok tt, mkState (rng s) (cv2_imwrite X file img (fs s)),
   [EvImwrite file img]).

(** ** [plot_imgs_grid] *)

(** [sum([len(files) for r, d, files in os.walk(path)])]. *)
Definition count_files (w : list (string * list string * list string)) : nat :=
  sum_list ((λ e, length e.2) <$> w).

(** The body of the loop.  [save] is [Some (path, file_counter)] when
    [path] is truthy: both [if path:] tests of the function read the
    same unchanged variable, and [file_counter] is bound exactly
    then. *)
Definition plot_one (imgs : Tensor) (save : option (string * nat))
    (iax : nat * nat) : M unit :=
  let '(i, ax) := iax in
  img ← tensor_getitem imgs i;
  let img := normalize img in
  c ← shape_last img;
  img ← (if c =? 1 then
           let sq := np_squeeze_last img in
           emit (EvImshow (Some ax) sq (Some "gray")) ;; mret sq
         else
           emit (EvImshow (Some ax) (EagerTensor img) None) ;;
           mret (EagerTensor img));
  match save with
  | Some (path, file_counter) =>
      let name := "Dog_" +:+ str (file_counter + i) in
      let image_path := os_path_join path name in
      arr ← numpy img;
      let img := scalar_mul 255 arr in
      let img := astype_uint8 img in
      imwrite (image_path +:+ ".jpg") img ;;
      emit (EvPrint ("Image saved as: " +:+ name) None)
  | None => mret tt
  end.

Definition plot_imgs_grid (imgs : Tensor) (path : option string) : M unit :=
  n_imgs ← shape0 imgs;
  let grid_side := round_sqrt n_imgs in
  axes ← plt_subplots grid_side grid_side (n_imgs, n_imgs);
  save ← match path with
         | Some p =>
             if truthy path then
               w ← walk p; mret (Some (p, count_files w))
             else mret None
         | None => mret None
         end;
  let axes := np_reshape_flat axes in
  for_each (enumerate axes) (plot_one imgs save) ;;
  emit EvShow.

(** ** [generate_and_plot_images] *)

(** [tf.math.floor(gan.num_classes * tf.random.uniform(shp))]. *)
Definition draw_labels (gan : GAN) (shp : list nat) : M Tensor :=
  u ← tf_random_uniform shp;
  mret (tf_floor (scalar_mul (inject_Z (num_classes gan)) u)).

Definition generate_and_plot_images (gan : GAN) (num_images : nat)
    (save_path : option string) : M unit :=
  latent_samples ← tf_random_truncated_normal [num_images; latent_dim gan];
  random_labels ← draw_labels gan [num_images; 1];
  let inputs := (latent_samples, random_labels) in
  generated_images ← call_gan gan inputs false;
  plot_imgs_grid generated_images save_path.

(** ** [compute_fid] *)

Definition call_scale_images (imgs : Tensor) (new_shape : list nat)
  : M Tensor :=
  emit (EvScaleImages imgs new_shape) ;;
  mret (scale_images X imgs new_shape).

Definition call_calculate_fid (images1 images2 : Tensor) : M Q :=
  emit (EvCalculateFid images1 images2) ;;
  mret (calculate_fid X images1 images2).

Definition compute_fid (gan : GAN) (real_images : Tensor) : M Q :=
  num_images ← shape0 real_images;
  latent_samples ← tf_random_truncated_normal [16; latent_dim gan];
  random_labels ← draw_labels gan [16; 1];
  let inputs := (latent_samples, random_labels) in
  generated_images ← call_gan gan inputs false;
  images1 ← call_scale_images real_images [299; 299; 3];
  images2 ← call_scale_images generated_images [299; 299; 3];
  fid ← call_calculate_fid images1 images2;
  mret fid.

(** ** [loss_curve] *)

(** [history.history[key]]. *)
Definition dict_getitem (d : gmap string (list Q)) (key : string)
  : M (list Q) :=
  match d !! key with
  | Some v => mret v
  | None => raise (KeyError key)
  end.

(** [plt.plot(ys, label=...)]: with one positional argument the
    abscissae are the indices of the series. *)
Definition plt_plot (ys : list Q) (label : string) : M unit :=
  emit (EvPlot (seq 0 (length ys)) ys label).

Definition loss_curve (history : gmap string (list Q)) : M unit :=
  g ← dict_getitem history "g_loss";
  plt_plot g "generator loss" ;;
  d ← dict_getitem history "d_loss";
  plt_plot d "discriminator loss" ;;
  emit (EvXlabel "Epoch") ;;
  emit (EvYlabel "Loss") ;;
  emit (EvGrid "y") ;;
  emit (EvLegend "lower right") ;;
  emit EvShow.

(** ** [sample] *)

(** [next(iter(train_dataset))]: the first batch of the data set. *)
Definition next_iter (train_dataset : list (Tensor * Tensor))
  : M (Tensor * Tensor) :=
  match train_dataset with
  | b :: _ => mret b
  | [] => raise StopIteration
  end.

Definition sample (gan : GAN) (train_dataset : list (Tensor * Tensor))
  : M unit :=
  random_latent_vectors ← tf_random_truncated_normal [1; latent_dim gan];
  random_labels ← draw_labels gan [1; 1];
  let inputs := (random_latent_vectors, random_labels) in
  gen_imgs ← call_gan gan inputs false;
  '(real_imgs, real_labels) ← next_iter train_dataset;
  real_img ← tensor_take real_imgs 1;
  real_label ← tensor_take real_labels 1;
  pred_real ← call_discriminator gan real_img real_label false;
  pred_gen ← call_discriminator gan gen_imgs random_labels false;
  emit (EvPrint "Probability of real image being real:"
          (Some (sigmoid X pred_real))) ;;
  emit (EvPrint "Probability of generated image being real:"
          (Some (sigmoid X pred_gen))) ;;
  img ← tensor_getitem gen_imgs 0;
  let img := normalize img in
  c ← shape_last img;
  (if c =? 1 then
     let img := np_squeeze_last img in
     emit (EvTitle "Generated image") ;;
     emit (EvImshow None img (Some "gray"))
   else
     emit (EvTitle "Generated image") ;;
     emit (EvImshow None (EagerTensor img) None)) ;;
  emit EvShow.

End Evaluation.

Arguments result {X A} o.
Arguments final {X A} o.
Arguments events {X A} o.

(** ** Reading a log *)

(** The files handed to [cv2.imwrite], the images handed to [imshow],
    the calls of the GAN, the shapes requested from the truncated normal
    distribution and the tensors handed to [scale_images], each in the
    order of the log. *)
Definition writes (l : list Event) : list (string * UInt8Array) :=
  omap (λ e, match e with EvImwrite f u => Some (f, u) | _ => None end) l.

Definition shown (l : list Event) : list Array :=
  omap (λ e, match e with EvImshow _ a _ => Some a | _ => None end) l.

Definition gan_calls (l : list Event) : list (Tensor * Tensor * bool) :=
  omap (λ e, match e with EvGan z y t => Some (z, y, t) | _ => None end) l.

Definition normal_requests (l : list Event) : list (list nat) :=
  omap (λ e, match e with EvTruncatedNormal shp => Some shp | _ => None end) l.

(** The event is not a call of [cv2.imwrite]. *)
Definition not_imwrite (e : Event) : Prop :=
  match e with EvImwrite _ _ => False | _ => True end.

(** What [imshow] displays and what [imwrite] stores comes from an image
    of [imgs] by [(img + 1) / 2], and for a stored image by the further
    multiplication with 255 and the conversion to [uint8]. *)
Definition normalized_from (imgs : Tensor) (e : Event) : Prop :=
  match e with
  | EvImshow _ a _ =>
      ∃ i img, slice imgs i = Some img
               ∧ data (array_tensor a) = normalize_px <$> data img
  | EvImwrite _ u =>
      ∃ i img, slice imgs i = Some img
               ∧ u8_data u = (λ x, to_uint8 (255 * normalize_px x)%Q) <$> data img
  | _ => True
  end.

Definition scaled (l : list Event) : list Tensor :=
  omap (λ e, match e with EvScaleImages t _ => Some t | _ => None end) l.

(** The events [plot_imgs_grid] can log. *)
Definition plot_only (e : Event) : Prop :=
  match e with
  | EvGan _ _ _ | EvDiscriminator _ _ _
  | EvTruncatedNormal _ | EvUniform _ => False
  | _ => True
  end.

(** A network call of the log is made with [training=False]. *)
Definition inference_only (e : Event) : Prop :=
  match e with
  | EvGan _ _ t | EvDiscriminator _ _ t => t = false
  | _ => True
  end.

(** [(255 * img.numpy()).astype('uint8')] for the normalised [img]. *)
Definition saved_pixels (img : Tensor) : UInt8Array :=
  astype_uint8 (scalar_mul 255 (normalize img)).

(** What [sample] logs after the generation: network calls in
    inference mode only, no further draw of latent vectors, nothing
    written, and the generated image shown after normalisation. *)
Definition sample_tail (gen : Tensor) (e : Event) : Prop :=
  match e with
  | EvGan _ _ _ | EvTruncatedNormal _ | EvImwrite _ _ => False
  | EvDiscriminator _ _ t => t = false
  | EvImshow _ a _ =>
      ∃ img, slice gen 0 = Some img
             ∧ data (array_tensor a) = normalize_px <$> data img
  | _ => True
  end.

(** ** Vocabulary for the runs *)

Section Observations.
Context (X : Externals).

Local Abbreviation M := (M X).
Local Abbreviation State := (State X).

(** A run [m] keeps the relation [R] between its first and last state
    and logs only events satisfying [Q]. *)
Definition frames {A} (R : State → State → Prop) (Q : Event → Prop)
    (m : M A) : Prop :=
  ∀ s, R s (final (m s)) ∧ Forall Q (events (m s)).

(** The value of [save] and the opening calls in a run of
    [plot_imgs_grid] from the state [s] on [n] images. *)
Definition save_of (path : option string) (s : State)
  : option (string * nat) :=
  match path with
  | Some p =>
      if truthy path then Some (p, count_files (os_walk X (fs X s) p))
      else None
  | None => None
  end.

Definition prelude (n : nat) (path : option string) : list Event :=
  EvSubplots (round_sqrt n) (round_sqrt n) (n, n) ::
  match path with
  | Some p => if truthy path then [EvOsWalk p] else []
  | None => []
  end.

(** The two relations between states used below. *)
Definition same_files : relation State := λ s s', fs X s' = fs X s.
Definition any_state : relation State := λ _ _, True.

(** The inputs every generation path builds for a batch of [k], from
    the draws that follow position [rng s], and the state after. *)
Definition latent_of (gan : GAN) (k : nat) (s : State) : Tensor :=
  drawn (normal_draw X) [k; latent_dim gan] (rng X s).

Definition labels_of (gan : GAN) (k : nat) (s : State) : Tensor :=
  tf_floor (scalar_mul (inject_Z (num_classes gan))
              (drawn (uniform_draw X) [k; 1]
                 (rng X s + numel [k; latent_dim gan]))).

Definition generated (gan : GAN) (k : nat) (s : State) : Tensor :=
  gan_forward gan (latent_of gan k s) (labels_of gan k s) false.

Definition after_generation (gan : GAN) (k : nat) (s : State) : State :=
  mkState X (rng X s + numel [k; latent_dim gan] + numel [k; 1]) (fs X s).

Definition generation_log (gan : GAN) (k : nat) (s : State) : list Event :=
  [EvTruncatedNormal [k; latent_dim gan]; EvUniform [k; 1];
   EvGan (latent_of gan k s) (labels_of gan k s) false].

End Observations.

(** ** The claims in the words of the specification *)

(** The value [compute_fid] is said to return: [calculate_fid] applied
    to the real images and to the generated images, both scaled to
    (299, 299, 3), the generated images being the forward pass of the
    GAN on a truncated-normal latent batch and on floored uniform
    labels. *)
Definition fid_by_delegation (X : Externals) (gan : GAN) (real_images : Tensor)
    (s : State X) : Q :=
  let latent :=
    drawn (normal_draw X) [16; latent_dim gan] (rng X s) in
  let labels :=
    tf_floor (scalar_mul (inject_Z (num_classes gan))
                (drawn (uniform_draw X) [16; 1]
                   (rng X s + numel [16; latent_dim gan]))) in
  let generated_images := gan_forward gan latent labels false in
  calculate_fid X
    (scale_images X real_images [299; 299; 3])
    (scale_images X generated_images [299; 299; 3]).

(** The file written for the image of index [i]. *)
Definition saved_as (path : string) (file_counter i : nat) : string :=
  os_path_join path ("Dog_" +:+ str (file_counter + i)) +:+ ".jpg".

(** Called with the path [p], [plot_imgs_grid] writes for the [i]-th
    image it shows the file [Dog_<c+i>.jpg] under [p], [c] being the
    number of files found by walking [p] before any write. *)
Definition saves_every_shown_image (X : Externals) (imgs : Tensor)
    (p : string) (s : State X) : Prop :=
  let o := plot_imgs_grid X imgs (Some p) s in
  let c := count_files (os_walk X (fs X s) p) in
  (writes (events o)).*1 = saved_as p c <$> seq 0 (length (shown (events o))).

(** Modelled from the spec: [scale_images] of [.utils] is not among the
    sources.  The specification has it scale the images to the target
    shape it is given, which for a batch means that every image of the
    result has that shape. *)
Definition scales_to_shape (X : Externals) : Prop :=
  ∀ t new_shape, tail (shape (scale_images X t new_shape)) = new_shape.

(** ** Vocabulary for the further properties *)

(** The random generator is where it was. *)
Definition same_rng (X : Externals) : relation (State X) :=
  λ s s', rng X s' = rng X s.


(** The entries of [t] are as many as its shape says. *)
Definition well_formed (t : Tensor) : Prop :=
  length (data t) = numel (shape t).

(** An image shown or written has the shape of one image of [imgs],
    without its last dimension when that is 1 and the image is shown in
    gray; for a well-formed [imgs] it has as many entries as one
    image. *)
Definition image_shaped (imgs : Tensor) (e : Event) : Prop :=
  match e with
  | EvImshow _ a cmap =>
      (shape (array_tensor a) =
         match cmap with
         | Some _ => removelast (tail (shape imgs))
         | None => tail (shape imgs)
         end)
      ∧ (well_formed imgs →
         length (data (array_tensor a)) = numel (tail (shape imgs)))
  | EvImwrite _ u =>
      u8_shape u = tail (shape imgs)
      ∧ (well_formed imgs → length (u8_data u) = numel (tail (shape imgs)))
  | _ => True
  end.

(** [xs] repeated as often as needed to provide [k] entries. *)
Definition cycle_data (xs : list Q) (k : nat) : list Q :=
  take k (concat (replicate k xs)).

(** ** A small executable instance of the outside world

    The file system is the list of the files written so far, newest
    first; [os.walk] reports the files whose name extends the directory
    name; the draws cycle through a few values of the right range. *)
Module Demo.

Definition fs0 : Type := list (string * UInt8Array).

Definition demo_normal (i : nat) : Q :=
  Qmake (Z.of_nat ((i * 3) `mod` 9) - 4) 2.

Definition demo_uniform (i : nat) : Q :=
  Qmake (Z.of_nat ((5 * i + 3) `mod` 8)) 8.

Definition demo_walk (f : fs0) (path : string)
  : list (string * list string * list string) :=
  [(path, [], filter (λ name, String.prefix path name = true) (f.*1))].

Definition demo_imwrite (file : string) (img : UInt8Array) (f : fs0) : fs0 :=
  (file, img) :: f.

Definition demo_scale (t : Tensor) (new_shape : list nat) : Tensor :=
  let n := hd 0 (shape t) in
  mkTensor (n :: new_shape)
    (replicate (numel (n :: new_shape)) (hd 0%Q (data t))).

Definition demo_fid (a b : Tensor) : Q :=
  Qabs (hd 0%Q (data a) - hd 0%Q (data b)).

Definition world : Externals :=
  mkExternals fs0 demo_normal demo_uniform demo_walk demo_imwrite
    (λ t, t) demo_scale demo_fid.

Definition init : State world := mkState world 0 [].

(** A generator whose images are 2 x 2 with [ch] channels and repeat
    the first latent entries, and a constant discriminator. *)
Definition demo_gan (ch : nat) (classes : Z) : GAN :=
  mkGAN 3 classes
    (λ z _ _,
       let n := hd 0 (shape z) in
       mkTensor [n; 2; 2; ch]
         ((λ x, x / 2)%Q <$> cycle_data (data z) (n * (2 * 2 * ch))))
    (λ img _ _, mkTensor [hd 0 (shape img); 1] (replicate (hd 0 (shape img)) 0%Q)).

(** [n] images of 2 x 2 pixels with [ch] channels. *)
Definition pics (n ch : nat) : Tensor :=
  mkTensor [n; 2; 2; ch]
    ((λ i, Qmake (Z.of_nat (i `mod` 5) - 2) 2) <$> seq 0 (n * (2 * 2 * ch))).

(** A training history of three epochs, with a further series. *)
Definition demo_history : gmap string (list Q) :=
  {[ "g_loss" := [3; 2; 1]%Q; "d_loss" := [1; 2; 2]%Q;
     "lr" := [1; 1; 1]%Q ]}.

End Demo.

(** * Properties *)

(** ** The nearest integer to a square root *)

Lemma round_sqrt_nearest (n : nat) :
  1 ≤ n →
  (2 * round_sqrt n - 1) * (2 * round_sqrt n - 1) < 4 * n
  ∧ 4 * n < (2 * round_sqrt n + 1) * (2 * round_sqrt n + 1).
Proof.
  intros Hn. unfold round_sqrt.
  pose proof (Nat.sqrt_specif n) as [Hlo Hhi].
  assert (1 ≤ Nat.sqrt n) by (apply (Nat.sqrt_le_mono 1 n) in Hn; exact Hn).
  destruct (Nat.leb_spec (n - Nat.sqrt n * Nat.sqrt n) (Nat.sqrt n)); nia.
Qed.

Lemma round_sqrt_square (k : nat) : round_sqrt (k * k) = k.
Proof.
  unfold round_sqrt. rewrite Nat.sqrt_square.
  replace (k * k - k * k) with 0 by lia. reflexivity.
Qed.

Lemma round_sqrt_exact_iff (n : nat) :
  round_sqrt n * round_sqrt n = n ↔ ∃ k, n = k * k.
Proof.
  split.
  - intros H. eauto.
  - intros [k ->]. by rewrite round_sqrt_square.
Qed.

Lemma round_sqrt_pos (n : nat) : 1 ≤ n → 1 ≤ round_sqrt n.
Proof.
  intros Hn. unfold round_sqrt.
  assert (1 ≤ Nat.sqrt n) by (apply (Nat.sqrt_le_mono 1 n) in Hn; exact Hn).
  destruct (_ <=? _); lia.
Qed.

(** ** Arithmetic on entries *)

Lemma demo_uniform_range (i : nat) :
  (0 <= Demo.demo_uniform i)%Q ∧ (Demo.demo_uniform i < 1)%Q.
Proof.
  unfold Demo.demo_uniform, Qle, Qlt. cbn.
  pose proof (Nat.mod_upper_bound (5 * i + 3) 8). lia.
Qed.

Lemma normalize_px_range (x : Q) :
  (-1 <= x)%Q → (x <= 1)%Q → (0 <= normalize_px x)%Q ∧ (normalize_px x <= 1)%Q.
Proof.
  unfold normalize_px, Qdiv. change (/ 2)%Q with (1 # 2)%Q.
  intros Hlo Hhi. split; lra.
Qed.

Lemma to_uint8_range (x : Q) : (0 ≤ to_uint8 x ≤ 255)%Z.
Proof.
  unfold to_uint8.
  pose proof (Z.mod_pos_bound (Qnum x ÷ Z.pos (Qden x)) 256). lia.
Qed.

(** Within [0, 255] the conversion is the integer part, without any
    wrap-around. *)
Lemma to_uint8_floor (x : Q) :
  (0 <= x)%Q → (x <= 255)%Q → to_uint8 x = Qfloor x.
Proof.
  intros Hlo Hhi. unfold to_uint8.
  assert (0 ≤ Qfloor x)%Z as H0.
  { apply (Qfloor_resp_le 0 x) in Hlo. exact Hlo. }
  assert (Qfloor x ≤ 255)%Z as H255.
  { apply (Qfloor_resp_le x 255) in Hhi. exact Hhi. }
  destruct x as [a b]. cbn in *.
  assert (0 ≤ a)%Z.
  { unfold Qle in Hlo. cbn in Hlo. lia. }
  rewrite Z.quot_div_nonneg by lia.
  apply Z.mod_small. lia.
Qed.

Lemma floor_label_range (classes : Z) (u : Q) :
  (1 ≤ classes)%Z → (0 <= u)%Q → (u < 1)%Q →
  (0 ≤ Qfloor (inject_Z classes * u) ≤ classes - 1)%Z.
Proof.
  intros Hc Hlo Hhi.
  assert (0 < inject_Z classes)%Q as Hpos.
  { change (inject_Z 0 < inject_Z classes)%Q. rewrite <- Zlt_Qlt. lia. }
  split.
  - apply (Qfloor_resp_le 0 (inject_Z classes * u)). nra.
  - assert (inject_Z (Qfloor (inject_Z classes * u)) < inject_Z classes)%Q as H.
    { eapply Qle_lt_trans; [apply Qfloor_le|]. nra. }
    rewrite <- Zlt_Qlt in H. lia.
Qed.

Lemma slice_shape (imgs : Tensor) (i : nat) (img : Tensor) :
  slice imgs i = Some img → shape img = tail (shape imgs).
Proof.
  unfold slice. destruct (shape imgs) as [|d rest]; [done|].
  destruct (i <? d); [|done]. by intros [= <-].
Qed.

Lemma slice_in_bounds (imgs : Tensor) (i : nat) :
  is_Some (slice imgs i) ↔ i < hd 0 (shape imgs) ∧ shape imgs ≠ [].
Proof.
  unfold slice. destruct (shape imgs) as [|d rest]; cbn [hd].
  - split; [by intros [? ?]|by intros [_ ?]].
  - destruct (Nat.ltb_spec i d); split.
    + intros _. split; [lia|done].
    + intros _. eexists. reflexivity.
    + by intros [? ?].
    + intros [? _]; lia.
Qed.

Section Frames.
Context (X : Externals).

Local Abbreviation M := (M X).
Local Abbreviation State := (State X).

(** ** The monad *)

Lemma bind_run {A B} (m : M A) (k : A → M B) (s : State) :
  (m ≫= k) s =
  match m s with
  | (Ok a, s1, l1) => let '(r, s2, l2) := k a s1 in (r, s2, l1 ++ l2)
  | (Raise e, s1, l1) => (Raise e, s1, l1)
  end.
Proof. reflexivity. Qed.


Context (R : State → State → Prop) (Q : Event → Prop).
Context `{!Reflexive R, !Transitive R}.

Lemma frames_ret {A} (a : A) : frames X R Q (mret a : M A).
Proof. intros s. split; [reflexivity | constructor]. Qed.

Lemma frames_raise {A} (e : Exn) : frames X R Q (raise X e : M A).
Proof. intros s. split; [reflexivity | constructor]. Qed.

Lemma frames_emit (e : Event) : Q e → frames X R Q (emit X e).
Proof. intros He s. split; [reflexivity | by repeat constructor]. Qed.

Lemma frames_bind {A B} (m : M A) (k : A → M B) :
  frames X R Q m → (∀ a, frames X R Q (k a)) → frames X R Q (m ≫= k).
Proof.
  intros Hm Hk s. rewrite bind_run.
  destruct (Hm s) as [HR HQ].
  destruct (m s) as [[[a|e] s1] l1]; cbn in *; [|done].
  destruct (Hk a s1) as [HR' HQ'].
  destruct (k a s1) as [[r s2] l2]; cbn in *.
  split; [by etrans | by apply Forall_app].
Qed.

Lemma frames_for_each {A} (xs : list A) (body : A → M unit) :
  (∀ x, frames X R Q (body x)) → frames X R Q (for_each X xs body).
Proof.
  intros Hb. induction xs as [|x xs IH]; cbn.
  - apply frames_ret.
  - apply frames_bind; auto.
Qed.

End Frames.

Section Runs.
Context (X : Externals).

Local Abbreviation M := (M X).
Local Abbreviation State := (State X).

(** ** One iteration of the loop of [plot_imgs_grid] *)

Lemma plot_one_no_slice imgs save i ax (s : State) :
  slice imgs i = None →
  plot_one X imgs save (i, ax) s = (Raise InvalidArgumentError, s, []).
Proof.
  intros H. unfold plot_one, tensor_getitem. rewrite bind_run, H. reflexivity.
Qed.

Lemma plot_one_no_channel imgs save i ax img (s : State) :
  slice imgs i = Some img → last (shape img) = None →
  plot_one X imgs save (i, ax) s = (Raise IndexError, s, []).
Proof.
  intros H1 H2. unfold plot_one, tensor_getitem, shape_last.
  rewrite bind_run, H1. cbn. rewrite H2. reflexivity.
Qed.

Lemma plot_one_gray imgs save i ax img (s : State) :
  slice imgs i = Some img → last (shape img) = Some 1 →
  plot_one X imgs save (i, ax) s =
  (match save with Some _ => Raise AttributeError | None => Ok tt end, s,
   [EvImshow (Some ax) (np_squeeze_last (normalize img)) (Some "gray")]).
Proof.
  intros H1 H2. unfold plot_one, tensor_getitem, shape_last.
  rewrite bind_run, H1. cbn. rewrite H2. cbn.
  destruct save as [[p fc]|]; reflexivity.
Qed.

Lemma plot_one_colour imgs save i ax img c (s : State) :
  slice imgs i = Some img → last (shape img) = Some c → c ≠ 1 →
  plot_one X imgs save (i, ax) s =
  match save with
  | Some (p, fc) =>
      (Ok tt,
       mkState X (rng X s)
         (cv2_imwrite X (saved_as p fc i) (saved_pixels img) (fs X s)),
       [EvImshow (Some ax) (EagerTensor (normalize img)) None;
        EvImwrite (saved_as p fc i) (saved_pixels img);
        EvPrint ("Image saved as: " +:+ "Dog_" +:+ str (fc + i)) None])
  | None =>
      (Ok tt, s, [EvImshow (Some ax) (EagerTensor (normalize img)) None])
  end.
Proof.
  intros H1 H2 Hc. apply Nat.eqb_neq in Hc.
  unfold plot_one, tensor_getitem, shape_last.
  rewrite bind_run, H1. cbn. rewrite H2.
  unfold mbind, M_bind, mret, M_ret. cbn. rewrite Hc.
  destruct save as [[p fc]|]; reflexivity.
Qed.

(** The four outcomes of an iteration, as a case analysis. *)
Lemma plot_one_cases imgs save i ax (s : State) :
  plot_one X imgs save (i, ax) s = (Raise InvalidArgumentError, s, [])
  ∨ plot_one X imgs save (i, ax) s = (Raise IndexError, s, [])
  ∨ (∃ img, slice imgs i = Some img ∧ last (shape img) = Some 1 ∧
       plot_one X imgs save (i, ax) s =
       (match save with Some _ => Raise AttributeError | None => Ok tt end,
        s, [EvImshow (Some ax) (np_squeeze_last (normalize img)) (Some "gray")]))
  ∨ (∃ img c, slice imgs i = Some img ∧ last (shape img) = Some c ∧ c ≠ 1 ∧
       plot_one X imgs save (i, ax) s =
       match save with
       | Some (p, fc) =>
           (Ok tt,
            mkState X (rng X s)
              (cv2_imwrite X (saved_as p fc i) (saved_pixels img) (fs X s)),
            [EvImshow (Some ax) (EagerTensor (normalize img)) None;
             EvImwrite (saved_as p fc i) (saved_pixels img);
             EvPrint ("Image saved as: " +:+ "Dog_" +:+ str (fc + i)) None])
       | None =>
           (Ok tt, s, [EvImshow (Some ax) (EagerTensor (normalize img)) None])
       end).
Proof.
  destruct (slice imgs i) as [img|] eqn:H1.
  - destruct (last (shape img)) as [c|] eqn:H2.
    + destruct (decide (c = 1)) as [->|Hc].
      * right; right; left. eauto using plot_one_gray.
      * right; right; right. eauto 8 using plot_one_colour.
    + right; left. eauto using plot_one_no_channel.
  - left. by apply plot_one_no_slice.
Qed.

(** ** The whole of [plot_imgs_grid] *)

Lemma grid_axes (g : nat) :
  np_reshape_flat ((λ r, seq (r * g) g) <$> seq 0 g) = seq 0 (g * g).
Proof.
  unfold np_reshape_flat.
  assert (∀ k a, concat ((λ r, seq (r * g) g) <$> seq a k)
                 = seq (a * g) (k * g)) as H.
  { induction k as [|k IH]; intros a; cbn; [done|].
    rewrite IH. rewrite seq_app. do 2 f_equal. lia. }
  rewrite H. f_equal.
Qed.

Lemma plot_imgs_grid_run imgs path (s : State) n rest :
  shape imgs = n :: rest → round_sqrt n ≠ 0 →
  plot_imgs_grid X imgs path s =
  match for_each X (enumerate (seq 0 (round_sqrt n * round_sqrt n)))
          (plot_one X imgs (save_of X path s)) s with
  | (Ok _, s', l) => (Ok tt, s', prelude n path ++ l ++ [EvShow])
  | (Raise e, s', l) => (Raise e, s', prelude n path ++ l)
  end.
Proof.
  intros Hs Hg. unfold plot_imgs_grid, shape0, plt_subplots.
  rewrite bind_run, Hs. cbn.
  destruct (Nat.eqb_spec (round_sqrt n) 0) as [|_]; [done|]. cbn.
  rewrite !bind_run. cbn. rewrite grid_axes. unfold save_of, prelude.
  destruct path as [p|]; [destruct (truthy (Some p))|];
    repeat (rewrite !bind_run; cbn);
    destruct (for_each _ _ _ _) as [[[[]|e] s'] l]; cbn;
    rewrite ?app_nil_r; reflexivity.
Qed.

Lemma plot_imgs_grid_no_shape imgs path (s : State) :
  shape imgs = [] →
  plot_imgs_grid X imgs path s = (Raise IndexError, s, []).
Proof.
  intros Hs. unfold plot_imgs_grid, shape0. rewrite bind_run, Hs. reflexivity.
Qed.

Lemma plot_imgs_grid_no_grid imgs path (s : State) n rest :
  shape imgs = n :: rest → round_sqrt n = 0 →
  plot_imgs_grid X imgs path s = (Raise ValueError, s, []).
Proof.
  intros Hs Hg. unfold plot_imgs_grid, shape0, plt_subplots.
  rewrite bind_run, Hs. cbn. rewrite Hg. reflexivity.
Qed.

(** Whatever holds of every iteration, of the opening calls and of
    [plt.show] holds of the whole function. *)
Lemma plot_imgs_grid_frames (R : State → State → Prop) (Q : Event → Prop)
    `{!Reflexive R, !Transitive R} imgs path (s : State) :
  (∀ x, frames X R Q (plot_one X imgs (save_of X path s) x)) →
  (∀ r c f, Q (EvSubplots r c f)) → (∀ p, Q (EvOsWalk p)) → Q EvShow →
  R s (final (plot_imgs_grid X imgs path s))
  ∧ Forall Q (events (plot_imgs_grid X imgs path s)).
Proof.
  intros Hbody Hsub Hwalk Hshow.
  destruct (shape imgs) as [|n rest] eqn:Hs.
  { rewrite plot_imgs_grid_no_shape by done. split; [reflexivity|constructor]. }
  destruct (decide (round_sqrt n = 0)) as [Hg|Hg].
  { rewrite (plot_imgs_grid_no_grid _ _ _ n rest) by done.
    split; [reflexivity|constructor]. }
  rewrite (plot_imgs_grid_run _ _ _ n rest) by done.
  destruct (frames_for_each X R Q
              (enumerate (seq 0 (round_sqrt n * round_sqrt n)))
              _ Hbody s) as [HR HQ].
  assert (Forall Q (prelude n path)) as Hpre.
  { unfold prelude. constructor; [done|].
    destruct path; [destruct (truthy _)|]; repeat constructor; done. }
  destruct (for_each _ _ _ _) as [[[[]|e] s'] l]; cbn in *.
  - split; [done|]. rewrite app_comm_cons.
    apply Forall_app; split; [done|].
    apply Forall_app; split; [done|]. by repeat constructor.
  - split; [done|]. rewrite app_comm_cons. by apply Forall_app.
Qed.

#[local] Instance same_files_refl : Reflexive (same_files X).
Proof. by intros s. Qed.
#[local] Instance same_files_trans : Transitive (same_files X).
Proof. unfold same_files. intros s1 s2 s3 H1 H2. congruence. Qed.
#[local] Instance any_state_refl : Reflexive (any_state X).
Proof. by intros s. Qed.
#[local] Instance any_state_trans : Transitive (any_state X).
Proof. by intros s1 s2 s3. Qed.

Lemma save_of_falsy path (s : State) :
  truthy path = false → save_of X path s = None.
Proof. intros H. unfold save_of. destruct path; by rewrite ?H. Qed.

Lemma writes_none (l : list Event) : Forall not_imwrite l → writes l = [].
Proof.
  induction 1 as [|e l He _ IH]; [done|].
  destruct e; cbn in *; done.
Qed.

Lemma plot_one_unsaved imgs x :
  frames X (same_files X) not_imwrite (plot_one X imgs None x).
Proof.
  intros s. destruct x as [i ax].
  destruct (plot_one_cases imgs None i ax s)
    as [H|[H|[(img & _ & _ & H)|(img & c & _ & _ & _ & H)]]];
    rewrite H; cbn; repeat constructor.
Qed.

Lemma plot_imgs_grid_unsaved imgs path (s : State) :
  truthy path = false →
  fs X (final (plot_imgs_grid X imgs path s)) = fs X s
  ∧ writes (events (plot_imgs_grid X imgs path s)) = [].
Proof.
  intros Hp.
  destruct (plot_imgs_grid_frames (same_files X) not_imwrite imgs path s)
    as [HR HQ]; try done.
  - intros x. rewrite save_of_falsy by done. apply plot_one_unsaved.
  - split; [done|]. by apply writes_none.
Qed.

Lemma plot_one_normalized imgs save x :
  frames X (any_state X) (normalized_from imgs) (plot_one X imgs save x).
Proof.
  intros s. destruct x as [i ax]. split; [done|].
  destruct (plot_one_cases imgs save i ax s)
    as [H|[H|[(img & Hi & _ & H)|(img & c & Hi & _ & _ & H)]]];
    rewrite H; cbn; [constructor..| |].
  - repeat constructor. exists i, img. done.
  - destruct save as [[p fc]|]; cbn; repeat constructor;
      exists i, img; (split; [done|]); cbn; [done| |done].
    rewrite <- !list_fmap_compose. reflexivity.
Qed.

Lemma plot_imgs_grid_normalized imgs path (s : State) :
  Forall (normalized_from imgs) (events (plot_imgs_grid X imgs path s)).
Proof.
  destruct (plot_imgs_grid_frames (any_state X) (normalized_from imgs)
              imgs path s) as [_ H]; try done.
  intros x. apply plot_one_normalized.
Qed.

(** ** Generation *)

#[local] Arguments numel : simpl never.
#[local] Arguments drawn : simpl never.
#[local] Arguments tf_floor : simpl never.
#[local] Arguments scalar_mul : simpl never.
#[local] Arguments slice : simpl never.
#[local] Arguments normalize : simpl never.
#[local] Arguments np_squeeze_last : simpl never.

Lemma generate_and_plot_images_run gan k path (s : State) :
  generate_and_plot_images X gan k path s =
  let '(r, s', l) :=
    plot_imgs_grid X (generated X gan k s) path (after_generation X gan k s) in
  (r, s', generation_log X gan k s ++ l).
Proof.
  unfold generate_and_plot_images, draw_labels, call_gan.
  repeat (rewrite !bind_run; cbn).
  fold (latent_of X gan k s). fold (labels_of X gan k s).
  fold (generated X gan k s). fold (after_generation X gan k s).
  by destruct (plot_imgs_grid _ _ _ _) as [[r s'] l].
Qed.

Lemma compute_fid_no_shape gan real (s : State) :
  shape real = [] → compute_fid X gan real s = (Raise IndexError, s, []).
Proof.
  intros H. unfold compute_fid, shape0. by rewrite bind_run, H.
Qed.

Lemma compute_fid_run gan real (s : State) :
  shape real ≠ [] →
  compute_fid X gan real s =
  let images1 := scale_images X real [299; 299; 3] in
  let images2 := scale_images X (generated X gan 16 s) [299; 299; 3] in
  (Ok (calculate_fid X images1 images2),
   after_generation X gan 16 s,
   generation_log X gan 16 s ++
   [EvScaleImages real [299; 299; 3];
    EvScaleImages (generated X gan 16 s) [299; 299; 3];
    EvCalculateFid images1 images2]).
Proof.
  intros H. unfold compute_fid, shape0, draw_labels, call_gan,
    call_scale_images, call_calculate_fid.
  destruct (shape real) as [|n rest]; [done|].
  repeat (rewrite !bind_run; cbn). reflexivity.
Qed.

Lemma sample_run gan ds (s : State) :
  ∃ r l,
    sample X gan ds s = (r, after_generation X gan 1 s, generation_log X gan 1 s ++ l)
    ∧ Forall (sample_tail (generated X gan 1 s)) l.
Proof.
  unfold sample, draw_labels, call_gan, next_iter, call_discriminator.
  repeat (rewrite !bind_run; cbn).
  fold (latent_of X gan 1 s). fold (labels_of X gan 1 s).
  fold (generated X gan 1 s). fold (after_generation X gan 1 s).
  destruct ds as [|[real_imgs real_labels] ds]; cbn.
  { eexists _, []. split; [reflexivity|constructor]. }
  unfold tensor_take, tensor_getitem, shape_last.
  destruct (shape real_imgs) as [|d1 r1]; cbn.
  { eexists _, []. split; [reflexivity|constructor]. }
  repeat (rewrite !bind_run; cbn).
  destruct (shape real_labels) as [|d2 r2]; cbn.
  { eexists _, []. split; [reflexivity|constructor]. }
  repeat (rewrite !bind_run; cbn).
  destruct (slice (generated X gan 1 s) 0) as [img|] eqn:Hi; cbn.
  2:{ eexists _, _. split; [reflexivity|]. by repeat constructor. }
  repeat (rewrite !bind_run; cbn).
  destruct (last (shape (normalize img))) as [c|]; cbn.
  2:{ eexists _, _. split; [reflexivity|]. by repeat constructor. }
  repeat (rewrite !bind_run; cbn).
  destruct (c =? 1); repeat (rewrite !bind_run; cbn);
    (eexists _, _; split; [reflexivity|]);
    repeat constructor; by exists img.
Qed.

Lemma plot_one_plot_only imgs save x :
  frames X (any_state X) plot_only (plot_one X imgs save x).
Proof.
  intros s. destruct x as [i ax]. split; [done|].
  destruct (plot_one_cases imgs save i ax s)
    as [H|[H|[(img & _ & _ & H)|(img & c & _ & _ & _ & H)]]];
    rewrite H; cbn; [constructor..| |]; [|destruct save as [[p fc]|]];
    by repeat constructor.
Qed.

Lemma plot_only_quiet (l : list Event) :
  Forall plot_only l →
  gan_calls l = [] ∧ normal_requests l = [] ∧ Forall inference_only l.
Proof.
  induction 1 as [|e l He _ (IH1 & IH2 & IH3)]; [done|].
  destruct e; cbn in *; try done; by repeat constructor.
Qed.

Lemma sample_tail_quiet gen (l : list Event) :
  Forall (sample_tail gen) l →
  gan_calls l = [] ∧ normal_requests l = [] ∧ Forall inference_only l
  ∧ Forall (normalized_from gen) l.
Proof.
  induction 1 as [|e l He _ (IH1 & IH2 & IH3 & IH4)]; [done|].
  destruct e; cbn in *; try done; repeat split; try done;
    repeat constructor; try done.
  destruct He as (im & ? & ?). by exists 0, im.
Qed.

Lemma generation_log_calls gan k (s : State) (l : list Event) :
  gan_calls l = [] → normal_requests l = [] → Forall inference_only l →
  gan_calls (generation_log X gan k s ++ l)
  = [(latent_of X gan k s, labels_of X gan k s, false)]
  ∧ normal_requests (generation_log X gan k s ++ l) = [[k; latent_dim gan]]
  ∧ Forall inference_only (generation_log X gan k s ++ l).
Proof.
  intros H1 H2 H3. unfold gan_calls, normal_requests in *.
  rewrite !omap_app, H1, H2. repeat split; [done..|].
  apply Forall_app. split; [by repeat constructor|done].
Qed.

Lemma sample_calls gan ds (s : State) :
  gan_calls (events (sample X gan ds s))
  = [(latent_of X gan 1 s, labels_of X gan 1 s, false)]
  ∧ normal_requests (events (sample X gan ds s)) = [[1; latent_dim gan]]
  ∧ Forall inference_only (events (sample X gan ds s)).
Proof.
  destruct (sample_run gan ds s) as (r & l & -> & Hl).
  apply sample_tail_quiet in Hl as (H1 & H2 & H3 & _).
  by apply generation_log_calls.
Qed.

Lemma compute_fid_calls gan real (s : State) :
  shape real ≠ [] →
  gan_calls (events (compute_fid X gan real s))
  = [(latent_of X gan 16 s, labels_of X gan 16 s, false)]
  ∧ normal_requests (events (compute_fid X gan real s))
    = [[16; latent_dim gan]]
  ∧ Forall inference_only (events (compute_fid X gan real s)).
Proof.
  intros Hs. rewrite compute_fid_run by done.
  apply generation_log_calls; [done..|]. by repeat constructor.
Qed.

Lemma generate_calls gan k path (s : State) :
  gan_calls (events (generate_and_plot_images X gan k path s))
  = [(latent_of X gan k s, labels_of X gan k s, false)]
  ∧ normal_requests (events (generate_and_plot_images X gan k path s))
    = [[k; latent_dim gan]]
  ∧ Forall inference_only (events (generate_and_plot_images X gan k path s)).
Proof.
  rewrite generate_and_plot_images_run.
  destruct (plot_imgs_grid_frames (any_state X) plot_only
              (generated X gan k s) path (after_generation X gan k s))
    as [_ HQ]; try done.
  { intros x. apply plot_one_plot_only. }
  destruct (plot_imgs_grid _ _ _ _) as [[r s'] l]. cbn in *.
  apply plot_only_quiet in HQ as (H1 & H2 & H3).
  by apply generation_log_calls.
Qed.

Lemma labels_of_range gan k (s : State) :
  (1 ≤ num_classes gan)%Z →
  (∀ i, (0 <= uniform_draw X i)%Q ∧ (uniform_draw X i < 1)%Q) →
  Forall (λ q, ∃ c : Z, q = inject_Z c ∧ (0 ≤ c ≤ num_classes gan - 1)%Z)
    (data (labels_of X gan k s)).
Proof.
  intros Hc Hu. unfold labels_of, tf_floor, scalar_mul, drawn.
  cbn [data]. rewrite !Forall_fmap. apply Forall_forall. intros i _.
  cbn. eexists. split; [reflexivity|].
  destruct (Hu i). by apply floor_label_range.
Qed.

Lemma loss_curve_run (history : gmap string (list Q)) g d (s : State) :
  history !! "g_loss" = Some g → history !! "d_loss" = Some d →
  loss_curve X history s =
  (Ok tt, s,
   [EvPlot (seq 0 (length g)) g "generator loss";
    EvPlot (seq 0 (length d)) d "discriminator loss";
    EvXlabel "Epoch"; EvYlabel "Loss"; EvGrid "y";
    EvLegend "lower right"; EvShow]).
Proof.
  intros Hg Hd. unfold loss_curve, dict_getitem, plt_plot.
  rewrite bind_run, Hg. cbn.
  repeat (rewrite !bind_run; cbn). rewrite Hd. cbn.
  repeat (rewrite !bind_run; cbn). reflexivity.
Qed.

(** ** The loop of [plot_imgs_grid], index by index *)

Lemma plot_imgs_grid_loop imgs path (s : State) n rest :
  shape imgs = n :: rest → round_sqrt n ≠ 0 →
  let o := plot_imgs_grid X imgs path s in
  let o' := for_each X (enumerate (seq 0 (round_sqrt n * round_sqrt n)))
              (plot_one X imgs (save_of X path s)) s in
  result o = result o' ∧ final o = final o'
  ∧ shown (events o) = shown (events o')
  ∧ writes (events o) = writes (events o').
Proof.
  intros Hs Hg o o'. subst o o'.
  rewrite (plot_imgs_grid_run _ _ _ n rest) by done.
  assert (shown (prelude n path) = [] ∧ writes (prelude n path) = [])
    as [Hp1 Hp2].
  { unfold prelude. destruct path; [destruct (truthy _)|]; done. }
  destruct (for_each _ _ _ _) as [[[[]|e] s'] l];
    unfold result, final, events, shown, writes in *; cbn [fst snd];
    rewrite !omap_app, ?Hp1, ?Hp2; cbn; rewrite ?app_nil_r; done.
Qed.

(** With a truthy path and images of more than one channel, the
    [k]-th image shown is stored under the [k]-th name, and the files
    are exactly those writes. *)
Lemma saving_loop imgs p fc :
  last (tail (shape imgs)) ≠ Some 1 →
  ∀ axs i0 (s : State),
    let o := for_each X (zip (seq i0 (length axs)) axs)
               (plot_one X imgs (Some (p, fc))) s in
    (writes (events o)).*1
    = saved_as p fc <$> seq i0 (length (shown (events o)))
    ∧ fs X (final o)
      = foldl (λ f w, cv2_imwrite X w.1 w.2 f) (fs X s) (writes (events o)).
Proof.
  intros Hch axs. induction axs as [|ax axs IH]; intros i0 s; [done|].
  cbn [length seq zip zip_with for_each]. rewrite bind_run.
  destruct (plot_one_cases imgs (Some (p, fc)) i0 ax s)
    as [H|[H|[(img & Hi & Hl & H)|(img & c & Hi & Hl & Hc & H)]]];
    rewrite H; [done|done| |].
  - apply slice_shape in Hi. congruence.
  - specialize (IH (S i0)
      (mkState X (rng X s)
         (cv2_imwrite X (saved_as p fc i0) (saved_pixels img) (fs X s)))).
    cbn in IH. destruct IH as [IH1 IH2].
    destruct (for_each _ _ _ _) as [[r s2] l2].
    unfold events, final in *. cbn in *. by rewrite IH1, IH2.
Qed.

(** A loop that ends normally has only used indices inside the
    tensor; in any case it shows at most one image per axis. *)
Lemma loop_in_bounds imgs save :
  ∀ axs i0 (s : State),
    let o := for_each X (zip (seq i0 (length axs)) axs)
               (plot_one X imgs save) s in
    length (shown (events o)) ≤ length axs
    ∧ (result o = Ok tt →
       ∀ i, i0 ≤ i < i0 + length axs → is_Some (slice imgs i)).
Proof.
  intros axs. induction axs as [|ax axs IH]; intros i0 s.
  { cbn. split; [done|]. intros _ i Hi. lia. }
  cbn [length seq zip zip_with for_each]. rewrite bind_run.
  specialize (IH (S i0)).
  destruct (plot_one_cases imgs save i0 ax s)
    as [H|[H|[(img & Hi & Hl & H)|(img & c & Hi & Hl & Hc & H)]]];
    rewrite H; clear H; cbn; try (split; [lia|done]).
  - destruct save as [sv|]; cbn; [split; [lia|done]|].
    specialize (IH s). cbn in IH. destruct IH as [IH1 IH2].
    destruct (for_each _ _ _ _) as [[r s2] l2]. cbn in *.
    split; [lia|]. intros Hr i Hb.
    destruct (decide (i = i0)) as [->|]; [by rewrite Hi|].
    apply IH2; [done|lia].
  - destruct save as [[p fc]|];
      match goal with
      | |- context [for_each _ _ _ ?s1] => specialize (IH s1)
      end;
      cbn in IH; destruct IH as [IH1 IH2];
      destruct (for_each _ _ _ _) as [[r s2] l2]; cbn in *;
      (split; [lia|]); intros Hr i Hb;
      (destruct (decide (i = i0)) as [->|]; [by rewrite Hi|]);
      (apply IH2; [done|lia]).
Qed.


End Runs.

(** * The claims *)

(** ** [plot_imgs_grid]: the grid and the indices *)

(** X2: a run that ends normally and shows [n] images needs [n] to be
    a perfect square. *)
Lemma plot_imgs_grid_needs_square X imgs path (s : State X) n rest :
  shape imgs = n :: rest →
  result (plot_imgs_grid X imgs path s) = Ok tt →
  length (shown (events (plot_imgs_grid X imgs path s))) = n →
  ∃ k, n = k * k.
Proof.
  intros Hs Hr Hn.
  destruct (decide (round_sqrt n = 0)) as [Hg|Hg].
  { by rewrite (plot_imgs_grid_no_grid X _ _ _ n rest) in Hr. }
  destruct (plot_imgs_grid_loop X imgs path s n rest Hs Hg) as (E1 & _ & E2 & _).
  rewrite E1 in Hr. rewrite E2 in Hn. clear E1 E2.
  set (g := round_sqrt n) in *.
  pose proof (loop_in_bounds X imgs (save_of X path s) (seq 0 (g * g)) 0 s)
    as [Hle Hin].
  unfold enumerate in Hr, Hn. rewrite length_seq in *.
  specialize (Hin Hr (g * g - 1) ltac:(nia)).
  apply slice_in_bounds in Hin as [Hlt _]. rewrite Hs in Hlt. cbn in Hlt.
  exists g. nia.
Qed.


(** C1, at two inputs where it fails.  With three images the grid is
    2 x 2: the images 0, 1 and 2 are shown and the index 3 is rejected
    by the tensor.  With two images the grid is 1 x 1: the run ends
    normally and has shown one image only. *)
Theorem plot_imgs_grid_not_square :
  (let o := plot_imgs_grid Demo.world (Demo.pics 3 3) None Demo.init in
   head (events o) = Some (EvSubplots 2 2 (3, 3))
   ∧ length (shown (events o)) = 3
   ∧ result o = Raise InvalidArgumentError)
  ∧ (let o := plot_imgs_grid Demo.world (Demo.pics 2 3) None Demo.init in
     head (events o) = Some (EvSubplots 1 1 (2, 2))
     ∧ length (shown (events o)) = 1
     ∧ result o = Ok tt).
Proof. vm_compute. done. Qed.

(** ** [compute_fid] *)

(** C2: for a tensor of real images, [compute_fid] returns the value of
    [calculate_fid] on the two results of [scale_images], and the run
    consists of the three calls of the generation followed by exactly
    these three calls. *)
Theorem compute_fid_delegates X gan real (s : State X) :
  shape real ≠ [] →
  let o := compute_fid X gan real s in
  result o = Ok (fid_by_delegation X gan real s)
  ∧ events o =
    generation_log X gan 16 s ++
    [EvScaleImages real [299; 299; 3];
     EvScaleImages (generated X gan 16 s) [299; 299; 3];
     EvCalculateFid (scale_images X real [299; 299; 3])
       (scale_images X (generated X gan 16 s) [299; 299; 3])].
Proof. intros Hs o. subst o. by rewrite compute_fid_run. Qed.

Lemma compute_fid_delegates_witness :
  shape (Demo.pics 2 3) ≠ [] ∧
  result (compute_fid Demo.world (Demo.demo_gan 3 5) (Demo.pics 2 3) Demo.init)
  = Ok (fid_by_delegation Demo.world (Demo.demo_gan 3 5) (Demo.pics 2 3) Demo.init).
Proof.
  split; [discriminate|].
  apply (compute_fid_delegates Demo.world (Demo.demo_gan 3 5) (Demo.pics 2 3)
           Demo.init).
  discriminate.
Defined.

(** C3: the batch fed to the GAN has 16 rows whatever the real images
    are, and what is generated and scaled does not depend on them; so
    the two sets handed to the metric can differ in size, as they do
    for two real images. *)
Theorem compute_fid_batch_is_16 X gan real1 real2 (s : State X) :
  shape real1 ≠ [] → shape real2 ≠ [] →
  gan_calls (events (compute_fid X gan real1 s))
  = [(latent_of X gan 16 s, labels_of X gan 16 s, false)]
  ∧ gan_calls (events (compute_fid X gan real2 s))
    = gan_calls (events (compute_fid X gan real1 s))
  ∧ shape (latent_of X gan 16 s) = [16; latent_dim gan]
  ∧ shape (labels_of X gan 16 s) = [16; 1]
  ∧ scaled (events (compute_fid X gan real1 s)) = [real1; generated X gan 16 s]
  ∧ (λ t, hd 0 (shape t)) <$>
      scaled (events (compute_fid Demo.world (Demo.demo_gan 3 5)
                        (Demo.pics 2 3) Demo.init))
    = [2; 16].
Proof.
  intros H1 H2.
  destruct (compute_fid_calls X gan real1 s H1) as (E1 & _ & _).
  destruct (compute_fid_calls X gan real2 s H2) as (E2 & _ & _).
  rewrite E1, E2. split_and!; [done..| |].
  - by rewrite compute_fid_run.
  - rewrite compute_fid_run by discriminate. reflexivity.
Qed.

Lemma compute_fid_batch_is_16_witness :
  gan_calls (events (compute_fid Demo.world (Demo.demo_gan 3 5)
                       (Demo.pics 2 3) Demo.init))
  = gan_calls (events (compute_fid Demo.world (Demo.demo_gan 3 5)
                         (Demo.pics 4 3) Demo.init)).
Proof.
  destruct (compute_fid_batch_is_16 Demo.world (Demo.demo_gan 3 5)
    (Demo.pics 4 3) (Demo.pics 2 3) Demo.init) as (_ & H & _);
    [discriminate|discriminate|exact H].
Defined.

(** C6: both image sets go through [scale_images] with the target
    shape (299, 299, 3) before [calculate_fid] is called on the two
    results; when [scale_images] returns images of the requested shape,
    the two arguments of the metric have the same image dimensions. *)
Theorem fid_inputs_same_shape X gan real (s : State X) :
  scales_to_shape X → shape real ≠ [] →
  ∃ a b,
    events (compute_fid X gan real s) =
    generation_log X gan 16 s ++
    [EvScaleImages real [299; 299; 3];
     EvScaleImages (generated X gan 16 s) [299; 299; 3];
     EvCalculateFid a b]
    ∧ tail (shape a) = [299; 299; 3]
    ∧ tail (shape b) = tail (shape a).
Proof.
  intros Hsc Hs. rewrite compute_fid_run by done.
  eexists _, _. split; [reflexivity|]. by rewrite !Hsc.
Qed.

Lemma fid_inputs_same_shape_witness :
  ∃ a b,
    events (compute_fid Demo.world (Demo.demo_gan 3 5) (Demo.pics 2 3) Demo.init)
    = generation_log Demo.world (Demo.demo_gan 3 5) 16 Demo.init ++
      [EvScaleImages (Demo.pics 2 3) [299; 299; 3];
       EvScaleImages (generated Demo.world (Demo.demo_gan 3 5) 16 Demo.init)
         [299; 299; 3];
       EvCalculateFid a b]
    ∧ tail (shape a) = [299; 299; 3]
    ∧ tail (shape b) = tail (shape a).
Proof.
  apply fid_inputs_same_shape.
  - intros t shp. reflexivity.
  - discriminate.
Defined.

(** ** The inputs of the generator *)

(** C7: in [sample], [compute_fid] and [generate_and_plot_images] the
    GAN is called once, in inference mode, on a latent batch that is
    the one draw requested from the truncated normal distribution, of
    shape (k, latent_dim) with k = 1, 16 and [num_images]; every other
    network call of these runs is in inference mode too.
    ([compute_fid] stops before any call when the real images have no
    first dimension.) *)
Theorem generator_inputs X gan ds real num_images path (s : State X) :
  (gan_calls (events (sample X gan ds s))
   = [(latent_of X gan 1 s, labels_of X gan 1 s, false)]
   ∧ normal_requests (events (sample X gan ds s)) = [[1; latent_dim gan]]
   ∧ Forall inference_only (events (sample X gan ds s)))
  ∧ (gan_calls (events (compute_fid X gan real s))
     = match shape real with
       | [] => []
       | _ => [(latent_of X gan 16 s, labels_of X gan 16 s, false)]
       end
     ∧ normal_requests (events (compute_fid X gan real s))
       = match shape real with [] => [] | _ => [[16; latent_dim gan]] end
     ∧ Forall inference_only (events (compute_fid X gan real s)))
  ∧ (gan_calls (events (generate_and_plot_images X gan num_images path s))
     = [(latent_of X gan num_images s, labels_of X gan num_images s, false)]
     ∧ normal_requests (events (generate_and_plot_images X gan num_images path s))
       = [[num_images; latent_dim gan]]
     ∧ Forall inference_only
         (events (generate_and_plot_images X gan num_images path s)))
  ∧ ∀ k, shape (latent_of X gan k s) = [k; latent_dim gan]
         ∧ data (latent_of X gan k s)
           = normal_draw X <$> seq (rng X s) (k * latent_dim gan).
Proof.
  split_and!.
  - apply sample_calls.
  - apply sample_calls.
  - apply sample_calls.
  - destruct (shape real) eqn:Hs.
    + by rewrite compute_fid_no_shape.
    + apply compute_fid_calls. by rewrite Hs.
  - destruct (shape real) eqn:Hs.
    + by rewrite compute_fid_no_shape.
    + apply compute_fid_calls. by rewrite Hs.
  - destruct (shape real) eqn:Hs.
    + rewrite compute_fid_no_shape by done. constructor.
    + apply compute_fid_calls. by rewrite Hs.
  - apply generate_calls.
  - apply generate_calls.
  - apply generate_calls.
  - intros k. split; [done|]. cbn. do 2 f_equal. lia.
Qed.

(** C8: with at least one class and uniform draws in [0, 1), the labels
    of every call of the GAN in the three generation paths are
    [floor (num_classes * u)] for a batch [u] of uniform draws, and each
    of them is an integer between 0 and [num_classes - 1]. *)
Theorem labels_in_range X gan ds real num_images path (s : State X) :
  (1 ≤ num_classes gan)%Z →
  (∀ i, (0 <= uniform_draw X i)%Q ∧ (uniform_draw X i < 1)%Q) →
  ∀ z y t,
    (z, y, t) ∈ gan_calls (events (sample X gan ds s))
                ++ gan_calls (events (compute_fid X gan real s))
                ++ gan_calls (events (generate_and_plot_images X gan
                                        num_images path s)) →
    (∃ k from,
        y = tf_floor (scalar_mul (inject_Z (num_classes gan))
                        (drawn (uniform_draw X) [k; 1] from)))
    ∧ Forall (λ q, ∃ c : Z, q = inject_Z c ∧ (0 ≤ c ≤ num_classes gan - 1)%Z)
        (data y).
Proof.
  intros Hc Hu z y t Hin.
  destruct (sample_calls X gan ds s) as (E1 & _ & _).
  destruct (generate_calls X gan num_images path s) as (E3 & _ & _).
  rewrite E1, E3 in Hin. clear E1 E3.
  assert (∃ k, y = labels_of X gan k s) as [k ->].
  { apply elem_of_app in Hin as [Hin|Hin];
      [|apply elem_of_app in Hin as [Hin|Hin]].
    - apply list_elem_of_singleton in Hin as [= _ -> _]. eauto.
    - destruct (shape real) eqn:Hs.
      + rewrite compute_fid_no_shape in Hin by done. by apply elem_of_nil in Hin.
      + destruct (compute_fid_calls X gan real s) as (E2 & _ & _);
          [by rewrite Hs|].
        rewrite E2 in Hin.
        apply list_elem_of_singleton in Hin as [= _ -> _]. eauto.
    - apply list_elem_of_singleton in Hin as [= _ -> _]. eauto. }
  split; [by eexists _, _|]. by apply labels_of_range.
Qed.

Lemma labels_in_range_witness :
  Forall (λ q, ∃ c : Z, q = inject_Z c ∧ (0 ≤ c ≤ 5 - 1)%Z)
    (data (labels_of Demo.world (Demo.demo_gan 3 5) 4 Demo.init)).
Proof.
  refine (proj2 (labels_in_range Demo.world (Demo.demo_gan 3 5) []
                   (Demo.pics 2 3) 4 None Demo.init _ demo_uniform_range
                   (latent_of Demo.world (Demo.demo_gan 3 5) 4 Demo.init)
                   (labels_of Demo.world (Demo.demo_gan 3 5) 4 Demo.init)
                   false _)).
  - cbn. lia.
  - vm_compute. do 2 right. left.
Defined.

(** ** Nothing is written without a path *)

(** C9: with [path] equal to [None], [plot_imgs_grid] calls
    [cv2.imwrite] never and leaves the file system as it was, also when
    it is reached through [generate_and_plot_images] without a
    [save_path]; in general a run that writes was given a non-empty
    path. *)
Theorem no_path_no_write X gan imgs num_images (s : State X) :
  (let o := plot_imgs_grid X imgs None s in
   fs X (final o) = fs X s ∧ writes (events o) = [])
  ∧ (let o := generate_and_plot_images X gan num_images None s in
     fs X (final o) = fs X s ∧ writes (events o) = [])
  ∧ ∀ path,
      let o := plot_imgs_grid X imgs path s in
      (fs X (final o) = fs X s ∧ writes (events o) = [])
      ∨ ∃ p, path = Some p ∧ p ≠ EmptyString.
Proof.
  split_and!.
  - by apply plot_imgs_grid_unsaved.
  - cbn zeta. rewrite generate_and_plot_images_run.
    destruct (plot_imgs_grid_unsaved X (generated X gan num_images s) None
                (after_generation X gan num_images s)) as [H1 H2]; [done|].
    destruct (plot_imgs_grid _ _ _ _) as [[r s'] l]. cbn in *.
    done.
  - intros path o. destruct (truthy path) eqn:Ht.
    + right. destruct path as [p|]; [|done]. exists p. split; [done|].
      intros ->. done.
    + left. by apply plot_imgs_grid_unsaved.
Qed.

(** ** [loss_curve] *)

(** C10: when the history has the series ['g_loss'] and ['d_loss'],
    [loss_curve] plots the first against its indices with the label
    "generator loss", then the second with the label "discriminator
    loss", completes the figure and shows it; nothing else of the
    history has any influence, and no state is changed. *)
Theorem loss_curve_plots X (history : gmap string (list Q)) g d (s : State X) :
  history !! "g_loss" = Some g → history !! "d_loss" = Some d →
  loss_curve X history s =
  (Ok tt, s,
   [EvPlot (seq 0 (length g)) g "generator loss";
    EvPlot (seq 0 (length d)) d "discriminator loss";
    EvXlabel "Epoch"; EvYlabel "Loss"; EvGrid "y";
    EvLegend "lower right"; EvShow]).
Proof. apply loss_curve_run. Qed.

Lemma loss_curve_plots_witness :
  events (loss_curve Demo.world Demo.demo_history Demo.init)
  = [EvPlot [0; 1; 2] [3; 2; 1]%Q "generator loss";
     EvPlot [0; 1; 2] [1; 2; 2]%Q "discriminator loss";
     EvXlabel "Epoch"; EvYlabel "Loss"; EvGrid "y";
     EvLegend "lower right"; EvShow].
Proof.
  rewrite (loss_curve_plots Demo.world Demo.demo_history [3; 2; 1]%Q
             [1; 2; 2]%Q Demo.init); [reflexivity| |]; vm_compute; reflexivity.
Defined.

(** ** Normalisation *)

(** C5: every image that [plot_imgs_grid] or [sample] hands to [imshow]
    is an image of the input, respectively the first generated image,
    after [(img + 1) / 2]; every image handed to [cv2.imwrite] is such
    an image after the further multiplication with 255 and the
    conversion to [uint8].  The map sends [-1, 1] into [0, 1], where the
    conversion of 255 times the value is its integer part. *)
Theorem images_normalized X gan ds imgs path (s : State X) :
  Forall (normalized_from imgs) (events (plot_imgs_grid X imgs path s))
  ∧ Forall (normalized_from (generated X gan 1 s)) (events (sample X gan ds s))
  ∧ ∀ x, (-1 <= x)%Q → (x <= 1)%Q →
         (0 <= normalize_px x)%Q ∧ (normalize_px x <= 1)%Q
         ∧ to_uint8 (255 * normalize_px x) = Qfloor (255 * normalize_px x).
Proof.
  split_and!.
  - apply plot_imgs_grid_normalized.
  - destruct (sample_run X gan ds s) as (r & l & -> & Hl).
    apply sample_tail_quiet in Hl as (_ & _ & _ & Hl).
    apply Forall_app. split; [by repeat constructor|done].
  - intros x Hlo Hhi.
    destruct (normalize_px_range x Hlo Hhi) as [H0 H1].
    split_and!; [done..|]. apply to_uint8_floor; nra.
Qed.

Lemma images_normalized_witness :
  (0 <= normalize_px (1 # 2))%Q ∧ (normalize_px (1 # 2) <= 1)%Q
  ∧ to_uint8 (255 * normalize_px (1 # 2)) = 191%Z.
Proof.
  destruct (images_normalized Demo.world (Demo.demo_gan 1 5) []
              (Demo.pics 4 3) (Some "out") Demo.init) as (_ & _ & H).
  destruct (H (1 # 2)%Q) as (H0 & H1 & H2); [done..|].
  split_and!; [exact H0|exact H1|]. rewrite H2. reflexivity.
Defined.

(** ** Saving *)

Lemma saved_as_under_path (path : string) (file_counter i : nat) :
  path ≠ EmptyString →
  saved_as path file_counter i
  = (path +:+ (if ends_with_sep path then EmptyString else "/")
          +:+ "Dog_" +:+ str (file_counter + i)) +:+ ".jpg".
Proof.
  intros Hp. unfold saved_as, os_path_join. cbn.
  rewrite bool_decide_eq_false_2 by done. cbn.
  by destruct (ends_with_sep path).
Qed.

(** C4 as it is stated fails for the empty path, which is not [None]:
    the image is shown and no file is written. *)
Lemma plot_imgs_grid_empty_path_saves_nothing :
  ¬ saves_every_shown_image Demo.world (Demo.pics 1 3) EmptyString Demo.init.
Proof. vm_compute. discriminate. Qed.

(** C4, amended: with a non-empty path and images whose last dimension
    is not 1, the [i]-th image shown is written by [cv2.imwrite] to the
    file [Dog_<c+i>.jpg] of the directory [path], where [c] is the
    number of files that [os.walk] finds under [path] in the file system
    of the call; these writes, in this order, are all that happens to
    the file system. *)
Theorem plot_imgs_grid_saves X imgs path (s : State X) :
  path ≠ EmptyString → last (tail (shape imgs)) ≠ Some 1 →
  let o := plot_imgs_grid X imgs (Some path) s in
  let c := count_files (os_walk X (fs X s) path) in
  saves_every_shown_image X imgs path s
  ∧ (∀ i, saved_as path c i
          = (path +:+ (if ends_with_sep path then EmptyString else "/")
                  +:+ "Dog_" +:+ str (c + i)) +:+ ".jpg")
  ∧ fs X (final o)
    = foldl (λ f w, cv2_imwrite X w.1 w.2 f) (fs X s) (writes (events o)).
Proof.
  intros Hp Hch o c. subst o c. unfold saves_every_shown_image.
  split_and!; [| intros i; by apply saved_as_under_path |].
  all: destruct (shape imgs) as [|n rest] eqn:Hs;
    [by rewrite plot_imgs_grid_no_shape|].
  all: destruct (decide (round_sqrt n = 0)) as [Hg|Hg];
    [by rewrite (plot_imgs_grid_no_grid X _ _ _ n rest)|].
  all: destruct (plot_imgs_grid_loop X imgs (Some path) s n rest Hs Hg)
    as (_ & E2 & E3 & E4); rewrite ?E2, ?E3, ?E4; clear E2 E3 E4.
  all: assert (save_of X (Some path) s
               = Some (path, count_files (os_walk X (fs X s) path))) as ->
    by (unfold save_of, truthy; by rewrite bool_decide_eq_false_2).
  all: unfold enumerate; apply saving_loop; by rewrite Hs.
Qed.

Lemma plot_imgs_grid_saves_witness :
  (writes (events (plot_imgs_grid Demo.world (Demo.pics 4 3) (Some "out")
                     Demo.init))).*1
  = ["out/Dog_0.jpg"; "out/Dog_1.jpg"; "out/Dog_2.jpg"; "out/Dog_3.jpg"].
Proof.
  destruct (plot_imgs_grid_saves Demo.world (Demo.pics 4 3) "out" Demo.init)
    as (H & _ & _); [discriminate|vm_compute; discriminate|].
  unfold saves_every_shown_image in H. rewrite H. vm_compute. reflexivity.
Defined.


(** * Further properties of the module *)

(** ** [plot_imgs_grid]: how many images are shown *)





Lemma plot_imgs_grid_needs_square_witness : ∃ k, 9 = k * k.
Proof.
  apply (plot_imgs_grid_needs_square Demo.world (Demo.pics 9 3) None Demo.init
           9 [2; 2; 3]); vm_compute; reflexivity.
Defined.



(** X15: for at least one image the first call of [plot_imgs_grid] is
    [plt.subplots (g, g, figsize=(n, n))] where [g >= 1] is the integer
    nearest to the square root of [n]. *)
Theorem plot_imgs_grid_grid_side X imgs path (s : State X) n rest :
  shape imgs = n :: rest → 1 ≤ n →
  ∃ g, head (events (plot_imgs_grid X imgs path s))
       = Some (EvSubplots g g (n, n))
       ∧ 1 ≤ g
       ∧ (2 * g - 1) * (2 * g - 1) < 4 * n < (2 * g + 1) * (2 * g + 1).
Proof.
  intros Hs Hn. exists (round_sqrt n).
  pose proof (round_sqrt_pos n Hn) as Hg.
  split_and!; [|done|apply round_sqrt_nearest; done..].
  rewrite (plot_imgs_grid_run X _ _ _ n rest) by (done || lia).
  by destruct (for_each _ _ _ _) as [[[[]|e] s'] l].
Qed.

Lemma plot_imgs_grid_grid_side_witness :
  ∃ g, head (events (plot_imgs_grid Demo.world (Demo.pics 7 3) None Demo.init))
       = Some (EvSubplots g g (7, 7))
       ∧ 1 ≤ g
       ∧ (2 * g - 1) * (2 * g - 1) < 4 * 7 < (2 * g + 1) * (2 * g + 1).
Proof.
  apply (plot_imgs_grid_grid_side Demo.world (Demo.pics 7 3) None Demo.init
           7 [2; 2; 3]); [reflexivity|lia].
Defined.

(** ** [plot_imgs_grid]: what it leaves alone *)

#[local] Instance same_rng_refl X : Reflexive (same_rng X).
Proof. by intros s. Qed.
#[local] Instance same_rng_trans X : Transitive (same_rng X).
Proof. unfold same_rng. intros s1 s2 s3 H1 H2. congruence. Qed.

Lemma plot_one_same_rng X imgs save x :
  frames X (same_rng X) plot_only (plot_one X imgs save x).
Proof.
  intros s. destruct x as [i ax].
  destruct (plot_one_cases X imgs save i ax s)
    as [H|[H|[(img & _ & _ & H)|(img & c & _ & _ & _ & H)]]];
    rewrite H; [by repeat constructor..| |].
  - split; [done|]. by repeat constructor.
  - destruct save as [[p fc]|]; (split; [done|]); by repeat constructor.
Qed.

Lemma plot_imgs_grid_same_rng X imgs path (s : State X) :
  rng X (final (plot_imgs_grid X imgs path s)) = rng X s
  ∧ Forall plot_only (events (plot_imgs_grid X imgs path s)).
Proof.
  apply (plot_imgs_grid_frames X (same_rng X) plot_only); try done.
  intros x. apply plot_one_same_rng.
Qed.

(** X5: whatever its arguments, [plot_imgs_grid] draws no random
    number and calls neither the GAN nor the discriminator: the random
    generator is left where it was, and the log holds plotting and file
    events only. *)
Theorem plot_imgs_grid_no_randomness X imgs path (s : State X) :
  let o := plot_imgs_grid X imgs path s in
  rng X (final o) = rng X s
  ∧ Forall plot_only (events o)
  ∧ gan_calls (events o) = []
  ∧ normal_requests (events o) = [].
Proof.
  intros o. subst o.
  destruct (plot_imgs_grid_same_rng X imgs path s) as [H1 H2].
  destruct (plot_only_quiet _ H2) as (H3 & H4 & _). done.
Qed.

(** X14: [generate_and_plot_images] is the generation of a batch of
    [num_images] followed by [plot_imgs_grid] on the generated images:
    same result, the generation calls put before the log, and
    [num_images * latent_dim + num_images] draws consumed in all,
    whether or not the plot succeeds. *)
Theorem generate_and_plot_images_composes X gan num_images path (s : State X) :
  let o := generate_and_plot_images X gan num_images path s in
  let o' := plot_imgs_grid X (generated X gan num_images s) path
              (after_generation X gan num_images s) in
  result o = result o'
  ∧ final o = final o'
  ∧ events o = generation_log X gan num_images s ++ events o'
  ∧ rng X (final o) = rng X s + num_images * latent_dim gan + num_images.
Proof.
  intros o o'. subst o o'. rewrite generate_and_plot_images_run.
  destruct (plot_imgs_grid_same_rng X (generated X gan num_images s) path
              (after_generation X gan num_images s)) as [Hr _].
  destruct (plot_imgs_grid _ _ _ _) as [[r s'] l].
  unfold result, final, events in *. cbn [fst snd] in *.
  split_and!; [done..|]. rewrite Hr. cbn. lia.
Qed.

(** ** [plot_imgs_grid]: the files of one call *)

Lemma append_length (a b : string) :
  String.length (a +:+ b) = String.length a + String.length b.
Proof. induction a as [|c a IH]; [done|]. simpl. f_equal. exact IH. Qed.

Lemma append_inj_r (t a b : string) : a +:+ t = b +:+ t → a = b.
Proof.
  revert b. induction a as [|c a IH]; intros [|c' b] H; simpl in H.
  - done.
  - apply (f_equal String.length) in H.
    rewrite !append_length in H. simpl in H. lia.
  - apply (f_equal String.length) in H.
    rewrite !append_length in H. simpl in H. lia.
  - injection H as -> H. f_equal. by apply IH.
Qed.

Lemma os_path_join_inj (path a b : string) :
  os_path_join path ("Dog_" +:+ a) = os_path_join path ("Dog_" +:+ b) → a = b.
Proof.
  unfold os_path_join. cbn.
  destruct (bool_decide (path = EmptyString) || ends_with_sep path); intros H.
  - apply (inj (String.append path)) in H. by injection H.
  - apply (inj (String.append path)) in H. by injection H.
Qed.

Lemma saved_as_inj (path : string) (c : nat) : Inj (=) (=) (saved_as path c).
Proof.
  intros i j H. unfold saved_as in H.
  apply append_inj_r, os_path_join_inj in H.
  apply (inj pretty) in H. lia.
Qed.

(** Whatever happens, the files written by the loop are named after
    consecutive indices. *)
Lemma saving_loop_names X imgs p fc :
  ∀ axs i0 (s : State X),
    let o := for_each X (zip (seq i0 (length axs)) axs)
               (plot_one X imgs (Some (p, fc))) s in
    ∃ k, (writes (events o)).*1 = saved_as p fc <$> seq i0 k.
Proof.
  intros axs. induction axs as [|ax axs IH]; intros i0 s; [by exists 0|].
  cbn [length seq zip zip_with for_each]. rewrite bind_run.
  destruct (plot_one_cases X imgs (Some (p, fc)) i0 ax s)
    as [H|[H|[(img & Hi & Hl & H)|(img & c & Hi & Hl & Hc & H)]]];
    rewrite H; [by exists 0..|].
  match goal with
  | |- context [for_each _ _ _ ?s1] => specialize (IH (S i0) s1)
  end.
  cbn in IH. destruct IH as [k IH].
  destruct (for_each _ _ _ _) as [[r s2] l2].
  exists (S k). unfold events in *. cbn in *. by rewrite IH.
Qed.

(** X6: in every call of [plot_imgs_grid] the files handed to
    [cv2.imwrite] have pairwise different names: no image of a call
    overwrites another image of the same call. *)
Theorem plot_imgs_grid_distinct_files X imgs path (s : State X) :
  NoDup (writes (events (plot_imgs_grid X imgs path s))).*1.
Proof.
  destruct (truthy path) eqn:Hp.
  2:{ destruct (plot_imgs_grid_unsaved X imgs path s Hp) as [_ ->].
      constructor. }
  destruct (shape imgs) as [|n rest] eqn:Hs.
  { rewrite plot_imgs_grid_no_shape by done. constructor. }
  destruct (decide (round_sqrt n = 0)) as [Hg|Hg].
  { rewrite (plot_imgs_grid_no_grid X _ _ _ n rest) by done. constructor. }
  destruct (plot_imgs_grid_loop X imgs path s n rest Hs Hg) as (_ & _ & _ & ->).
  destruct path as [p|]; [|done].
  unfold save_of. rewrite Hp. unfold enumerate.
  destruct (saving_loop_names X imgs p (count_files (os_walk X (fs X s) p))
              (seq 0 (round_sqrt n * round_sqrt n)) 0 s) as [k ->].
  apply NoDup_fmap; [apply saved_as_inj|apply NoDup_seq].
Qed.

(** ** [plot_imgs_grid]: the shape of what is shown and written *)

Lemma slice_length (imgs : Tensor) (i : nat) (img : Tensor) :
  well_formed imgs → slice imgs i = Some img →
  length (data img) = numel (tail (shape imgs)).
Proof.
  unfold well_formed, slice.
  destruct (shape imgs) as [|d rest]; [done|]. cbn [tail numel foldr].
  destruct (Nat.ltb_spec i d); [|done].
  intros Hwf [= <-]. cbn [data].
  rewrite length_take, length_drop, Hwf. fold (numel rest). nia.
Qed.

Lemma plot_one_image_shaped X imgs save x :
  frames X (any_state X) (image_shaped imgs) (plot_one X imgs save x).
Proof.
  intros s. destruct x as [i ax]. split; [done|].
  destruct (plot_one_cases X imgs save i ax s)
    as [H|[H|[(img & Hi & Hl & H)|(img & c & Hi & Hl & Hc & H)]]];
    rewrite H; cbn [events snd]; [constructor..| |].
  - repeat constructor; cbn.
    + by rewrite (slice_shape _ _ _ Hi).
    + intros Hwf. rewrite length_fmap. by eapply slice_length.
  - pose proof (slice_shape _ _ _ Hi) as Hsh.
    destruct save as [[p fc]|]; repeat constructor; cbn; try done;
      intros Hwf; rewrite !length_fmap; by eapply slice_length.
Qed.

#[local] Instance any_state_reflexive X : Reflexive (any_state X).
Proof. by intros s. Qed.
#[local] Instance any_state_transitive X : Transitive (any_state X).
Proof. by intros s1 s2 s3. Qed.

(** X7: every image that [plot_imgs_grid] shows or writes has the
    shape of one image of the input, the last dimension being dropped
    for an image shown in gray, and, when the input tensor is well
    formed, as many entries as one image. *)
Theorem plot_imgs_grid_image_shapes X imgs path (s : State X) :
  Forall (image_shaped imgs) (events (plot_imgs_grid X imgs path s)).
Proof.
  apply (plot_imgs_grid_frames X (any_state X) (image_shaped imgs)); try done.
  intros x. apply plot_one_image_shaped.
Qed.

Lemma plot_imgs_grid_image_shapes_witness :
  Forall (image_shaped (Demo.pics 4 3))
    (events (plot_imgs_grid Demo.world (Demo.pics 4 3) (Some "out") Demo.init))
  ∧ well_formed (Demo.pics 4 3).
Proof.
  split; [apply plot_imgs_grid_image_shapes|].
  unfold well_formed. vm_compute. reflexivity.
Defined.

(** ** [loss_curve]: missing series and irrelevant series *)

Lemma loss_curve_no_g_loss X (history : gmap string (list Q)) (s : State X) :
  history !! "g_loss" = None →
  loss_curve X history s = (Raise (KeyError "g_loss"), s, []).
Proof.
  intros Hg. unfold loss_curve, dict_getitem. by rewrite bind_run, Hg.
Qed.

Lemma loss_curve_no_d_loss X (history : gmap string (list Q)) g (s : State X) :
  history !! "g_loss" = Some g → history !! "d_loss" = None →
  loss_curve X history s =
  (Raise (KeyError "d_loss"), s,
   [EvPlot (seq 0 (length g)) g "generator loss"]).
Proof.
  intros Hg Hd. unfold loss_curve, dict_getitem, plt_plot.
  rewrite bind_run, Hg. cbn.
  repeat (rewrite !bind_run; cbn). by rewrite Hd.
Qed.

(** X8: a history without ['g_loss'] makes [loss_curve] fail with that
    key before anything is plotted; a history with ['g_loss'] and
    without ['d_loss'] makes it fail with the key ['d_loss'] after the
    generator curve has been plotted, and before the figure is
    completed or shown. *)
Theorem loss_curve_missing_key X (history : gmap string (list Q)) (s : State X) :
  (history !! "g_loss" = None →
   loss_curve X history s = (Raise (KeyError "g_loss"), s, []))
  ∧ (∀ g, history !! "g_loss" = Some g → history !! "d_loss" = None →
          loss_curve X history s =
          (Raise (KeyError "d_loss"), s,
           [EvPlot (seq 0 (length g)) g "generator loss"])).
Proof.
  split; [apply loss_curve_no_g_loss|]. intros g. apply loss_curve_no_d_loss.
Qed.

Lemma loss_curve_missing_key_witness :
  loss_curve Demo.world (delete "d_loss" Demo.demo_history) Demo.init
  = (Raise (KeyError "d_loss"), Demo.init,
     [EvPlot [0; 1; 2] [3; 2; 1]%Q "generator loss"])
  ∧ loss_curve Demo.world (delete "g_loss" Demo.demo_history) Demo.init
    = (Raise (KeyError "g_loss"), Demo.init, []).
Proof.
  destruct (loss_curve_missing_key Demo.world
              (delete "d_loss" Demo.demo_history) Demo.init) as [_ H2].
  destruct (loss_curve_missing_key Demo.world
              (delete "g_loss" Demo.demo_history) Demo.init) as [H1 _].
  split.
  - apply (H2 [3; 2; 1]%Q); vm_compute; reflexivity.
  - apply H1. vm_compute. reflexivity.
Defined.

(** X9: [loss_curve] depends on the history through the two series
    only: two histories that agree on ['g_loss'] and on ['d_loss'],
    present or not, give the same run; and no run changes the state. *)
Theorem loss_curve_two_keys_only X (h1 h2 : gmap string (list Q)) (s : State X) :
  h1 !! "g_loss" = h2 !! "g_loss" → h1 !! "d_loss" = h2 !! "d_loss" →
  loss_curve X h1 s = loss_curve X h2 s
  ∧ final (loss_curve X h1 s) = s.
Proof.
  intros Hg Hd.
  destruct (h2 !! "g_loss") as [g|] eqn:Hg2.
  - destruct (h2 !! "d_loss") as [d|] eqn:Hd2.
    + by rewrite (loss_curve_run X h1 g d), (loss_curve_run X h2 g d).
    + by rewrite (loss_curve_no_d_loss X h1 g), (loss_curve_no_d_loss X h2 g).
  - by rewrite (loss_curve_no_g_loss X h1), (loss_curve_no_g_loss X h2).
Qed.

Lemma loss_curve_two_keys_only_witness :
  loss_curve Demo.world Demo.demo_history Demo.init
  = loss_curve Demo.world (delete "lr" Demo.demo_history) Demo.init.
Proof.
  apply (loss_curve_two_keys_only Demo.world Demo.demo_history
           (delete "lr" Demo.demo_history) Demo.init);
    vm_compute; reflexivity.
Defined.

(** ** [sample] *)

(** X10: whatever the data set, [sample] consumes [latent_dim + 1]
    draws, leaves the file system as it was and calls [cv2.imwrite]
    never. *)
Theorem sample_effects X gan ds (s : State X) :
  let o := sample X gan ds s in
  rng X (final o) = rng X s + latent_dim gan + 1
  ∧ fs X (final o) = fs X s
  ∧ writes (events o) = [].
Proof.
  intros o. subst o.
  destruct (sample_run X gan ds s) as (r & l & -> & Hl).
  unfold final, events. cbn [fst snd after_generation rng fs].
  split_and!; [cbn; lia|done|].
  apply writes_none. apply Forall_app. split; [by repeat constructor|].
  eapply Forall_impl; [exact Hl|]. intros e He. by destruct e.
Qed.

(** X11: on an empty data set [sample] fails with [StopIteration]
    after the generator has been run: the draws are consumed and the
    GAN is called, and neither the discriminator nor any plotting
    function is. *)
Theorem sample_empty_dataset X gan (s : State X) :
  sample X gan [] s
  = (Raise StopIteration, after_generation X gan 1 s, generation_log X gan 1 s).
Proof.
  unfold sample, draw_labels, call_gan, next_iter.
  repeat (rewrite !bind_run; cbn). reflexivity.
Qed.

Section SampleRun.

#[local] Arguments numel : simpl never.
#[local] Arguments drawn : simpl never.
#[local] Arguments tf_floor : simpl never.
#[local] Arguments scalar_mul : simpl never.
#[local] Arguments slice : simpl never.
#[local] Arguments normalize : simpl never.
#[local] Arguments np_squeeze_last : simpl never.


End SampleRun.


(** ** [compute_fid] *)

(** X13: [compute_fid] never plots and never writes, and leaves the
    file system as it was.  For real images without a first dimension
    it fails with [IndexError] before any draw and any call; otherwise
    it consumes [16 * latent_dim + 16] draws. *)
Theorem compute_fid_effects X gan real (s : State X) :
  let o := compute_fid X gan real s in
  fs X (final o) = fs X s
  ∧ shown (events o) = []
  ∧ writes (events o) = []
  ∧ (shape real = [] → o = (Raise IndexError, s, []))
  ∧ (shape real ≠ [] →
     rng X (final o) = rng X s + 16 * latent_dim gan + 16).
Proof.
  intros o. subst o.
  destruct (shape real) as [|n rest] eqn:Hs.
  - rewrite compute_fid_no_shape by done. by split_and!.
  - rewrite compute_fid_run by (by rewrite Hs).
    split_and!; [done..|]. intros _. cbn. lia.
Qed.

Lemma compute_fid_effects_witness :
  rng Demo.world
    (final (compute_fid Demo.world (Demo.demo_gan 3 5) (Demo.pics 2 3)
              Demo.init)) = 64
  ∧ compute_fid Demo.world (Demo.demo_gan 3 5) (mkTensor [] [1%Q]) Demo.init
    = (Raise IndexError, Demo.init, []).
Proof.
  destruct (compute_fid_effects Demo.world (Demo.demo_gan 3 5) (Demo.pics 2 3)
              Demo.init) as (_ & _ & _ & _ & H1).
  destruct (compute_fid_effects Demo.world (Demo.demo_gan 3 5)
              (mkTensor [] [1%Q]) Demo.init) as (_ & _ & _ & H2 & _).
  split; [by rewrite H1|by apply H2].
Defined.
